(** * A model of the cram bootstrap shim of copybara's integration tests

    [src/copybara/integration/cram.py] resolves the real [cram] library,
    copies the test files named on the command line into a fresh
    temporary directory under [$TEST_TMPDIR], rewrites the arguments to
    point at the copies and exits with the status returned by
    [cram.main].

    The model keeps the program's state explicit:
    - the file system is a [gmap] from path strings to entries (a file
      holds a list of bytes; a directory holds nothing of its own);
    - [os.environ] is a [gmap string string];
    - [sys.path] is a list of strings, and the module-level binding of
      [main] is a boolean;
    - the location of [external/cram/__init__.py] is an option (None when
      [from external import cram] finds no module);
    - [tempfile]'s random name sequence is the list of names it will draw.

    Fallible steps return an [outcome]: [Done] with the result, or
    [Raised] with the exception and the state at the moment it was raised
    (Python performs no rollback). The option parser [_main._parseopts]
    and the entry point [cram.main] belong to the external cram library;
    they are section variables. *)

From Stdlib Require Import ZArith String Ascii.
From stdpp Require Import base gmap strings list.

Open Scope string_scope.

(** ** Data model *)

Inductive entry :=
| File (data : list Byte.byte)
| Dir.

(** Exceptions that the shim can raise (none is caught). *)
Inductive exc :=
| NameError                       (* [del main] with [main] unbound *)
| ImportError                     (* [from external import cram] *)
| KeyError (key : string)         (* [os.environ['TEST_TMPDIR']] *)
| FileExistsError                 (* [mkdtemp] ran out of names *)
| FileNotFoundError (path : string)
| NotADirectoryError (path : string)
| IsADirectoryError (path : string)
| SameFileError (src dst : string). (* [shutil.copyfile(p, p)] *)

Record state := mkState {
  fs : gmap string entry;
  environ : gmap string string;
  sys_path : list string;
  main_bound : bool;
  external_cram_file : option string;
  tmp_names : list string
}.

Definition set_fs (m : gmap string entry) (st : state) : state :=
  mkState m (environ st) (sys_path st) (main_bound st)
          (external_cram_file st) (tmp_names st).

Definition set_tmp_names (ns : list string) (st : state) : state :=
  mkState (fs st) (environ st) (sys_path st) (main_bound st)
          (external_cram_file st) ns.

Definition set_sys_path (sp : list string) (st : state) : state :=
  mkState (fs st) (environ st) sp (main_bound st)
          (external_cram_file st) (tmp_names st).

Definition set_main_bound (b : bool) (st : state) : state :=
  mkState (fs st) (environ st) (sys_path st) b
          (external_cram_file st) (tmp_names st).

(** The result of a step that may raise: the success value, or the
    exception together with the state it leaves behind. *)
Inductive outcome (A S : Type) :=
| Done (a : A)
| Raised (e : exc) (s : S).
Arguments Done {A S} a.
Arguments Raised {A S} e s.

(** ** [posixpath] *)

Definition is_slash (c : ascii) : bool := Ascii.eqb c "/"%char.

Fixpoint has_slash (s : string) : bool :=
  match s with
  | EmptyString => false
  | String c r => is_slash c || has_slash r
  end.

Definition starts_with_slash (s : string) : bool :=
  match s with
  | EmptyString => false
  | String c _ => is_slash c
  end.

Fixpoint ends_with_slash (s : string) : bool :=
  match s with
  | EmptyString => false
  | String c EmptyString => is_slash c
  | String _ r => ends_with_slash r
  end.

(** [basename(p) = p[p.rfind('/') + 1:]] *)
Fixpoint basename (p : string) : string :=
  match p with
  | EmptyString => EmptyString
  | String c r =>
      if has_slash r then basename r
      else if is_slash c then r else p
  end.

(** [p[:p.rfind('/') + 1]]: everything up to and including the last slash. *)
Fixpoint head_part (p : string) : string :=
  match p with
  | EmptyString => EmptyString
  | String c r =>
      if has_slash r then String c (head_part r)
      else if is_slash c then String c EmptyString else EmptyString
  end.

Fixpoint rstrip_slash (s : string) : string :=
  match s with
  | EmptyString => EmptyString
  | String c r =>
      let r' := rstrip_slash r in
      if String.eqb r' "" && is_slash c then EmptyString else String c r'
  end.

Fixpoint all_slashes (s : string) : bool :=
  match s with
  | EmptyString => true
  | String c r => is_slash c && all_slashes r
  end.

(** [dirname(p)]: the head, with trailing slashes removed unless it
    consists of slashes only. *)
Definition dirname (p : string) : string :=
  let head := head_part p in
  if negb (String.eqb head "") && negb (all_slashes head)
  then rstrip_slash head else head.

(** [os.path.join(a, b)] for two components. *)
Definition join (a b : string) : string :=
  if starts_with_slash b then b
  else if String.eqb a "" || ends_with_slash a then a ++ b
  else a ++ "/" ++ b.

(** ** [tempfile.mkdtemp(dir=...)]

    Each attempt draws the next random name, forms
    [os.path.join(dir, "tmp" + name)] and calls [os.mkdir] on it; an
    existing entry (EEXIST) moves on to the next name, any other error of
    [mkdir] propagates, and after [TMP_MAX] attempts [mkdtemp] gives up.
    The random generator never runs out; the model draws from a finite
    list, and a run that uses up the list (the [[]] case below) is
    outside what it describes. *)

Definition TMP_MAX : N := 238328.

Fixpoint mkdtemp_try (dir : string) (seq : N) (names : list string)
    (st : state) : outcome (string * state) state :=
  match names with
  | [] => Raised FileExistsError (set_tmp_names [] st)
  | name :: rest =>
      if (TMP_MAX <=? seq)%N then Raised FileExistsError (set_tmp_names names st)
      else
        let file := join dir ("tmp" ++ name) in
        let st1 := set_tmp_names rest st in
        match fs st !! file with
        | Some _ => mkdtemp_try dir (N.succ seq) rest st1
        | None =>
            match fs st !! dir with
            | Some Dir => Done (file, set_fs (<[file := Dir]> (fs st)) st1)
            | Some (File _) => Raised (NotADirectoryError file) st1
            | None => Raised (FileNotFoundError file) st1
            end
        end
  end.

Definition mkdtemp (dir : string) (st : state) : outcome (string * state) state :=
  mkdtemp_try dir 0 (tmp_names st) st.

(** ** [shutil.copyfile(src, dst)]

    [_samefile] first (two equal path strings name the same file when it
    exists), then [open(src, 'rb')], then [open(dst, 'wb')] and the copy of
    the bytes. Paths are compared as strings, and [open(dst, 'wb')] is not
    checked for a missing parent directory: the shim only copies to
    [join(td, basename(p))], whose parent [td] it has just created. *)
Definition copyfile (src dst : string) (m : gmap string entry)
    : outcome (gmap string entry) (gmap string entry) :=
  if String.eqb src dst && bool_decide (is_Some (m !! src))
  then Raised (SameFileError src dst) m
  else
    match m !! src with
    | None => Raised (FileNotFoundError src) m
    | Some Dir => Raised (IsADirectoryError src) m
    | Some (File data) =>
        if ends_with_slash dst then Raised (IsADirectoryError dst) m
        else
          match m !! dst with
          | Some Dir => Raised (IsADirectoryError dst) m
          | _ => Done (<[dst := File data]> m)
          end
    end.

(** ** The argument rewrite

    [for i, x in enumerate(args): if x == p: args[i] = dest]; [enumerate]
    reads the live list, which the body updates in place by index. *)
Fixpoint enum_rewrite (p dest : string) (i n : nat) (args : list string)
    : list string :=
  match n with
  | O => args
  | S n' =>
      match args !! i with
      | None => args
      | Some x =>
          enum_rewrite p dest (S i) n'
            (if String.eqb x p then <[i := dest]> args else args)
      end
  end.

Definition rewrite_args (p dest : string) (args : list string) : list string :=
  enum_rewrite p dest 0 (length args) args.

(** ** The staging loop: [for p in paths: ...] *)
Fixpoint stage_loop (td : string) (paths args : list string)
    (m : gmap string entry)
    : outcome (list string * gmap string entry) (list string * gmap string entry) :=
  match paths with
  | [] => Done (args, m)
  | p :: ps =>
      let dest := join td (basename p) in
      match copyfile p dest m with
      | Raised e m' => Raised e (args, m')
      | Done m' => stage_loop td ps (rewrite_args p dest args) m'
      end
  end.

(** The range of a C [long] on an LP64 platform. *)
Definition LONG_MIN : Z := (- 2 ^ 63)%Z.
Definition LONG_MAX : Z := (2 ^ 63 - 1)%Z.

(** The process exit status for an integer [v] passed to [sys.exit].
    The interpreter converts [v] to a C [long] and casts it to [int]
    before calling [exit], which keeps the low eight bits. A [v] outside
    the [long] range does not convert; the interpreter then exits with
    a fixed [overflow] status: 255 under Python 3 ([PyLong_AsLong] fails
    and the status is [-1]) and 1 under Python 2 (a [long] that is not
    an [int] is printed and the status is 1). *)
Definition sys_exit (overflow v : Z) : Z :=
  if (LONG_MIN <=? v)%Z && (v <=? LONG_MAX)%Z then Z.land v 255 else overflow.

Section Shim.

(** [_main._parseopts(args)] keeps only its second component, the paths. *)
Variable parseopts : list string -> list string.
(** [cram.main(args)], reading the files of the given file system. *)
Variable cram_main : list string -> gmap string entry -> Z.
(** The exit status of an integer outside the C [long] range, which
    depends on the Python version (see [sys_exit]). *)
Variable overflow_status : Z.

(** Lines 29-35: [global main; del main], [from external import cram as
    fakecram], [sys.path.insert(0, os.path.dirname(fakecram.__file__))]. *)
Definition resolve_library (st : state) : outcome state state :=
  if negb (main_bound st) then Raised NameError st
  else
    let st1 := set_main_bound false st in
    match external_cram_file st1 with
    | None => Raised ImportError st1
    | Some f => Done (set_sys_path (dirname f :: sys_path st1) st1)
    end.

(** Lines 37-44, from the parse of [args] to the end of the loop. The
    outcome carries the local [args] and the state. *)
Definition stage_inputs (args : list string) (st : state)
    : outcome (list string * state) (list string * state) :=
  let paths := parseopts args in
  match environ st !! "TEST_TMPDIR" with
  | None => Raised (KeyError "TEST_TMPDIR") (args, st)
  | Some root =>
      match mkdtemp root st with
      | Raised e st1 => Raised e (args, st1)
      | Done (td, st1) =>
          match stage_loop td paths args (fs st1) with
          | Done (args', m) => Done (args', set_fs m st1)
          | Raised e (args', m) => Raised e (args', set_fs m st1)
          end
      end
  end.

(** Lines 29-46: everything up to the call [cram.main(args)]; on success,
    the arguments given to [cram.main] and the state at the call. *)
Definition main_call (argv : list string) (st : state)
    : outcome (list string * state) (list string * state) :=
  match resolve_library st with
  | Raised e st1 => Raised e (argv, st1)
  | Done st1 => stage_inputs (tl argv) st1
  end.

(** [main(sys.argv)]: [sys.exit(cram.main(args))]; the result is the
    process exit status, or the uncaught exception. *)
Definition main (argv : list string) (st : state) : outcome Z state :=
  match main_call argv st with
  | Done (args, st1) => Done (sys_exit overflow_status (cram_main args (fs st1)))
  | Raised e (_, st1) => Raised e st1
  end.

End Shim.

(** ** Concrete instances *)

(** A concrete option parser for the examples: the positional arguments,
    those that do not start with a dash, are the test files. *)
Definition positional_args (args : list string) : list string :=
  List.filter (fun a => negb (String.prefix "-" a)) args.

Definition ex_fs : gmap string entry :=
  <[ "/tmp/root" := Dir ]> (<[ "/src/test1.t" := File [Byte.x41; Byte.x0a] ]>
  (<[ "/a/t.t" := File [Byte.x41] ]> (<[ "/b/t.t" := File [Byte.x42] ]>
  (<[ "/c/t.t" := File [Byte.x41] ]> ∅)))).

Definition ex_state : state :=
  mkState ex_fs (<[ "TEST_TMPDIR" := "/tmp/root" ]> ∅) ["/usr/lib/python"]
          true (Some "/ext/external/cram/__init__.py") ["XXXX"; "YYYY"].

(** The same process without [TEST_TMPDIR] in its environment. *)
Definition ex_state_noenv : state :=
  mkState ex_fs ∅ ["/usr/lib/python"]
          true (Some "/ext/external/cram/__init__.py") ["XXXX"; "YYYY"].

(** The staging directory [mkdtemp] creates from [ex_state], the state
    after it, and the file system after staging [/src/test1.t]. *)
Definition ex_td : string := "/tmp/root/tmpXXXX".

Definition ex_state1 : state :=
  set_fs (<[ex_td := Dir]> ex_fs) (set_tmp_names ["YYYY"] ex_state).

Definition ex_fs1 : gmap string entry :=
  <[ "/tmp/root/tmpXXXX/test1.t" := File [Byte.x41; Byte.x0a] ]> (<[ex_td := Dir]> ex_fs).


(** A process where the candidate of the first random name is taken. *)
Definition ex_state_busy : state := set_fs (<[ex_td := Dir]> ex_fs) ex_state.

(** The state an [outcome] of [main_call] leaves, on success or failure. *)
Definition outcome_state {A} (r : outcome (A * state) (A * state)) : state :=
  match r with
  | Done (_, s) => s
  | Raised _ (_, s) => s
  end.

(** The file system an [outcome] of the staging loop leaves. *)
Definition outcome_fs {A} (r : outcome (A * gmap string entry) (A * gmap string entry))
    : gmap string entry :=
  match r with
  | Done (_, m) => m
  | Raised _ (_, m) => m
  end.

(** The path that [os.path.join(td, os.path.basename(p))] stages [p] to. *)
Definition staged_path (td p : string) : string := join td (basename p).

(** The value an argument [x] has after the loop over [paths]. *)
Definition staged_arg (td : string) (paths : list string) (x : string) : string :=
  if existsb (String.eqb x) paths then staged_path td x else x.

(** The last path of [ps] staged to [key], if any. *)
Fixpoint last_source (td : string) (ps : list string) (key : string) : option string :=
  match ps with
  | [] => None
  | q :: ps' =>
      match last_source td ps' key with
      | Some r => Some r
      | None => if String.eqb (staged_path td q) key then Some q else None
      end
  end.

(** ** Lemmas on [posixpath] *)

Lemma has_slash_app a b : has_slash (a ++ b) = has_slash a || has_slash b.
Proof. induction a as [|c a IH]; simpl; [done|]. by rewrite IH, orb_assoc. Qed.

Lemma basename_noslash b : has_slash b = false -> basename b = b.
Proof.
  induction b as [|c b IH]; simpl; [done|].
  intros [H1 H2]%orb_false_iff. by rewrite H2, H1.
Qed.

Lemma basename_app a b :
  has_slash b = false -> basename (a ++ b) = (basename a ++ b)%string.
Proof.
  intros Hb. induction a as [|c a IH]; simpl.
  - by apply basename_noslash.
  - rewrite has_slash_app, Hb, orb_false_r.
    destruct (has_slash a); [done|]. by destruct (is_slash c).
Qed.

Lemma ends_with_slash_has s : ends_with_slash s = true -> has_slash s = true.
Proof.
  induction s as [|c s IH]; simpl; [done|].
  destruct s as [|c' s']; [by rewrite orb_false_r|].
  intros H. rewrite IH; [apply orb_true_r|done].
Qed.

Lemma basename_ends_slash a : ends_with_slash a = true -> basename a = "".
Proof.
  induction a as [|c a IH]; simpl; [done|].
  destruct a as [|c' a'].
  - simpl. by intros ->.
  - intros H. rewrite (ends_with_slash_has _ H). by apply IH.
Qed.

Lemma basename_slash_free p : has_slash (basename p) = false.
Proof.
  induction p as [|c p IH]; simpl; [done|].
  destruct (has_slash p) eqn:E; [done|].
  destruct (is_slash c) eqn:E2; simpl; [done|]. by rewrite E2, E.
Qed.

Lemma starts_with_slash_has b : has_slash b = false -> starts_with_slash b = false.
Proof. destruct b as [|c b]; simpl; [done|]. by intros [? _]%orb_false_iff. Qed.

Lemma basename_sep a b :
  has_slash b = false -> basename (a ++ String "/" b) = b.
Proof.
  intros Hb. induction a as [|c a IH]; simpl; [by rewrite Hb|].
  rewrite has_slash_app. simpl. rewrite orb_true_r. exact IH.
Qed.

Lemma basename_join td b : has_slash b = false -> basename (join td b) = b.
Proof.
  intros Hb. unfold join. rewrite starts_with_slash_has by done.
  destruct (String.eqb td "") eqn:E1; simpl.
  - apply String.eqb_eq in E1 as ->. by apply basename_noslash.
  - destruct (ends_with_slash td) eqn:E2.
    + rewrite basename_app by done. by rewrite basename_ends_slash.
    + by apply basename_sep.
Qed.

Lemma basename_staged_path td p : basename (staged_path td p) = basename p.
Proof. apply basename_join, basename_slash_free. Qed.

Lemma staged_path_idem td p : staged_path td (staged_path td p) = staged_path td p.
Proof. unfold staged_path at 1. by rewrite basename_staged_path. Qed.

Lemma staged_path_eq_iff td p q :
  staged_path td p = staged_path td q <-> basename p = basename q.
Proof.
  split; intros H.
  - by rewrite <- (basename_staged_path td p), H, basename_staged_path.
  - unfold staged_path. by rewrite H.
Qed.

(** ** The argument rewrite is a map *)

Lemma enum_rewrite_split p dest (pre rest : list string) :
  enum_rewrite p dest (length pre) (length rest) (pre ++ rest)%list =
  (pre ++ map (fun x => if String.eqb x p then dest else x) rest)%list.
Proof.
  revert pre. induction rest as [|x rest IH]; intros pre; simpl.
  - by rewrite app_nil_r.
  - rewrite list_lookup_middle by done.
    assert (Hlen : forall y, S (length pre) = length (pre ++ [y])%list)
      by (intros y; rewrite length_app; simpl; lia).
    destruct (String.eqb x p) eqn:E.
    + rewrite (insert_app_r_alt pre _ (length pre)) by lia.
      rewrite Nat.sub_diag. simpl.
      replace (pre ++ dest :: rest)%list with ((pre ++ [dest]) ++ rest)%list
        by (by rewrite <- app_assoc).
      rewrite (Hlen dest), IH, <- app_assoc. done.
    + replace (pre ++ x :: rest)%list with ((pre ++ [x]) ++ rest)%list
        by (by rewrite <- app_assoc).
      rewrite (Hlen x), IH, <- app_assoc. done.
Qed.

Lemma rewrite_args_map p dest args :
  rewrite_args p dest args = map (fun x => if String.eqb x p then dest else x) args.
Proof. exact (enum_rewrite_split p dest [] args). Qed.

(** ** [copyfile], [mkdtemp] and the loop *)

Lemma copyfile_done p d m m' :
  copyfile p d m = Done m' ->
  p <> d /\ m !! d <> Some Dir /\
  exists c, m !! p = Some (File c) /\ m' = <[d := File c]> m.
Proof.
  unfold copyfile.
  destruct (String.eqb_spec p d) as [->|Hne];
    destruct (m !! _) as [[c|]|] eqn:Ep; simpl; try discriminate.
  destruct (ends_with_slash d); [discriminate|].
  destruct (m !! d) as [[]|] eqn:Ed; intros H; inversion H;
    (split; [done|split; [intros E; congruence|eauto]]).
Qed.

Lemma mkdtemp_try_done dir seq names st td st1 :
  mkdtemp_try dir seq names st = Done (td, st1) ->
  exists name, name ∈ names /\ td = join dir ("tmp" ++ name) /\
    fs st !! td = None /\ fs st !! dir = Some Dir /\
    fs st1 = <[td := Dir]> (fs st) /\ environ st1 = environ st.
Proof.
  revert seq st. induction names as [|name rest IH]; intros seq st; simpl;
    [discriminate|].
  destruct (TMP_MAX <=? seq)%N; [discriminate|].
  destruct (fs st !! join dir ("tmp" ++ name)) eqn:E.
  - intros H. destruct (IH _ _ H) as (n & Hin & ? & ? & ? & ? & ?).
    exists n. split; [by right|]. done.
  - destruct (fs st !! dir) as [[]|] eqn:Ed; try discriminate.
    intros H. inversion H; subst. exists name. split; [left|]. done.
Qed.

Lemma mkdtemp_done dir st td st1 :
  mkdtemp dir st = Done (td, st1) ->
  exists name, name ∈ tmp_names st /\ td = join dir ("tmp" ++ name) /\
    fs st !! td = None /\ fs st !! dir = Some Dir /\
    fs st1 = <[td := Dir]> (fs st) /\ environ st1 = environ st.
Proof. apply mkdtemp_try_done. Qed.

Lemma stage_loop_app td (l1 l2 : list string) args m :
  stage_loop td (l1 ++ l2)%list args m =
  match stage_loop td l1 args m with
  | Done (a, m1) => stage_loop td l2 a m1
  | Raised e s => Raised e s
  end.
Proof.
  revert args m. induction l1 as [|p l1 IH]; intros args m; simpl; [done|].
  destruct (copyfile p (join td (basename p)) m); [apply IH|done].
Qed.

Lemma stage_loop_args td ps args m args' m' :
  stage_loop td ps args m = Done (args', m') ->
  args' = map (staged_arg td ps) args.
Proof.
  revert args m. induction ps as [|p ps IH]; intros args m; simpl.
  - intros H. injection H as <- <-.
    induction args; simpl; f_equal; auto.
  - destruct (copyfile p (join td (basename p)) m) eqn:Ec; [|discriminate].
    intros H. rewrite (IH _ _ H), rewrite_args_map, map_map.
    apply map_ext. intros x. unfold staged_arg. simpl.
    destruct (String.eqb_spec x p) as [->|Hne]; simpl.
    + fold (staged_path td p).
      destruct (existsb (String.eqb (staged_path td p)) ps); [|done].
      apply staged_path_idem.
    + done.
Qed.

Lemma stage_loop_not_self td ps args m r :
  stage_loop td ps args m = Done r -> forall q, q ∈ ps -> q <> staged_path td q.
Proof.
  revert args m. induction ps as [|p ps IH]; intros args m; simpl.
  - intros _ q Hq. by apply not_elem_of_nil in Hq.
  - destruct (copyfile p (join td (basename p)) m) eqn:Ec; [|discriminate].
    intros H q [->|Hq]%elem_of_cons.
    + by destruct (copyfile_done _ _ _ _ Ec).
    + exact (IH _ _ H q Hq).
Qed.

Lemma last_source_in td ps key q :
  last_source td ps key = Some q -> q ∈ ps /\ staged_path td q = key.
Proof.
  induction ps as [|p ps IH]; simpl; [discriminate|].
  destruct (last_source td ps key) as [r|].
  - intros H. inversion H; subst. destruct IH as [? ?]; [done|].
    split; [by right|done].
  - destruct (String.eqb_spec (staged_path td p) key); [|discriminate].
    intros H. inversion H; subst. split; [left|done].
Qed.

(** A source staged later is never the destination of an earlier copy:
    it would be its own destination, which [copyfile] refuses. *)
Lemma staged_path_not_source td ps args m r p q :
  stage_loop td ps args m = Done r -> q ∈ ps -> q <> staged_path td p.
Proof.
  intros H Hq ->. apply (stage_loop_not_self _ _ _ _ _ H _ Hq).
  by rewrite staged_path_idem.
Qed.

Lemma stage_loop_fs td ps args m args' m' :
  stage_loop td ps args m = Done (args', m') ->
  forall key, m' !! key =
    match last_source td ps key with Some q => m !! q | None => m !! key end.
Proof.
  revert args m. induction ps as [|p ps IH]; intros args m; simpl.
  - intros H. by inversion H.
  - destruct (copyfile p (join td (basename p)) m) as [m1|] eqn:Ec;
      [|discriminate].
    destruct (copyfile_done _ _ _ _ Ec) as (Hne & _ & c & Hp & ->).
    fold (staged_path td p) in *.
    intros H key. rewrite (IH _ _ H key).
    destruct (last_source td ps key) as [q|] eqn:Els.
    + destruct (last_source_in _ _ _ _ Els) as [Hq _].
      apply lookup_insert_ne. intros Heq. symmetry in Heq.
      exact (staged_path_not_source _ _ _ _ _ p q H Hq Heq).
    + destruct (String.eqb_spec (staged_path td p) key) as [<-|Hk].
      * by rewrite lookup_insert_eq.
      * by apply lookup_insert_ne.
Qed.

Lemma stage_loop_sources td ps args m r :
  stage_loop td ps args m = Done r ->
  forall q, q ∈ ps -> exists c, m !! q = Some (File c).
Proof.
  revert args m. induction ps as [|p ps IH]; intros args m; simpl.
  - intros _ q Hq. by apply not_elem_of_nil in Hq.
  - destruct (copyfile p (join td (basename p)) m) as [m1|] eqn:Ec;
      [|discriminate].
    destruct (copyfile_done _ _ _ _ Ec) as (Hne & _ & c & Hp & ->).
    intros H q [->|Hq]%elem_of_cons; [eauto|].
    destruct (IH _ _ H q Hq) as [c' Hc'].
    rewrite lookup_insert_ne in Hc'; [eauto|].
    intros Heq. symmetry in Heq.
    exact (staged_path_not_source _ _ _ _ _ p q H Hq Heq).
Qed.

Lemma copyfile_raised p d m e m' : copyfile p d m = Raised e m' -> m' = m.
Proof.
  unfold copyfile. intros H.
  repeat (case_match || discriminate || (injection H as _ <-; done)).
Qed.

Lemma last_source_none td ps key :
  (forall r, r ∈ ps -> staged_path td r <> key) -> last_source td ps key = None.
Proof.
  induction ps as [|p ps IH]; intros Hr; simpl; [done|].
  rewrite IH by (intros r Hin; apply Hr; by right).
  destruct (String.eqb_spec (staged_path td p) key) as [E|]; [|done].
  exfalso. apply (Hr p); [left|done].
Qed.

Lemma last_source_self td ps q :
  q ∈ ps -> exists r, last_source td ps (staged_path td q) = Some r.
Proof.
  induction ps as [|p ps IH]; simpl.
  - intros Hq. by apply not_elem_of_nil in Hq.
  - intros [->|Hq]%elem_of_cons.
    + destruct (last_source td ps (staged_path td p)); [eauto|].
      rewrite String.eqb_refl. eauto.
    + destruct (IH Hq) as [r ->]. eauto.
Qed.

(** After a successful loop every staged path holds a file. *)
Lemma stage_loop_staged_file td ps args m args' m' :
  stage_loop td ps args m = Done (args', m') ->
  forall q, q ∈ ps -> exists c, m' !! staged_path td q = Some (File c).
Proof.
  intros H q Hq. rewrite (stage_loop_fs _ _ _ _ _ _ H).
  destruct (last_source_self td ps q Hq) as [r Hr]. rewrite Hr.
  destruct (last_source_in _ _ _ _ Hr) as [Hin _].
  exact (stage_loop_sources _ _ _ _ _ H r Hin).
Qed.

(** The loop never replaces a directory: [open(dst, 'wb')] refuses one. *)
Lemma stage_loop_keeps_dir td ps args m args' m' key :
  stage_loop td ps args m = Done (args', m') ->
  m !! key = Some Dir -> m' !! key = Some Dir.
Proof.
  revert args m. induction ps as [|p ps IH]; intros args m; simpl.
  - intros H. by injection H as _ <-.
  - destruct (copyfile p (join td (basename p)) m) as [m1|] eqn:Ec;
      [|discriminate].
    destruct (copyfile_done _ _ _ _ Ec) as (_ & Hd & c & _ & ->).
    intros H Hk. apply (IH _ _ H). rewrite lookup_insert_ne; [done|].
    intros <-. by apply Hd.
Qed.

Lemma mkdtemp_try_keeps dir seq names st td st1 :
  mkdtemp_try dir seq names st = Done (td, st1) ->
  sys_path st1 = sys_path st /\ main_bound st1 = main_bound st /\
  environ st1 = environ st.
Proof.
  revert seq st. induction names as [|name rest IH]; intros seq st; simpl;
    [discriminate|].
  destruct (TMP_MAX <=? seq)%N; [discriminate|].
  destruct (fs st !! join dir ("tmp" ++ name)).
  - intros H. exact (IH _ _ H).
  - destruct (fs st !! dir) as [[]|]; try discriminate.
    intros H. by injection H as _ <-.
Qed.

Lemma string_app_assoc (a b c : string) :
  ((a ++ b) ++ c)%string = (a ++ (b ++ c))%string.
Proof. induction a as [|x a IH]; [reflexivity|]. exact (f_equal (String x) IH). Qed.

Lemma ends_with_slash_app a b :
  b <> "" -> ends_with_slash (a ++ b) = ends_with_slash b.
Proof.
  intros Hb. induction a as [|x a IH]; simpl; [done|].
  rewrite IH. destruct a; simpl; [|done]. by destruct b.
Qed.

Lemma ends_with_slash_noslash b : has_slash b = false -> ends_with_slash b = false.
Proof.
  intros H. destruct (ends_with_slash b) eqn:E; [|done].
  by rewrite (ends_with_slash_has _ E) in H.
Qed.

Lemma string_app_neq_self (a b : string) : b <> "" -> a <> (a ++ b)%string.
Proof.
  intros Hb. induction a as [|x a IH]; simpl; [done|].
  intros H. injection H as H. by apply IH.
Qed.

Lemma lookup_map_string (f : string -> string) (l : list string) i :
  map f l !! i = f <$> l !! i.
Proof. revert i. induction l as [|x l IH]; intros [|i]; simpl; auto. Qed.

Lemma last_source_last td ps key j q :
  ps !! j = Some q -> staged_path td q = key ->
  (forall k r, j < k -> ps !! k = Some r -> staged_path td r <> key) ->
  last_source td ps key = Some q.
Proof.
  revert j. induction ps as [|p ps IH]; intros j Hj Hq Hlater; [done|].
  destruct j as [|j]; simpl in Hj; simpl.
  - injection Hj as <-. rewrite last_source_none.
    + by rewrite Hq, String.eqb_refl.
    + intros r Hr. apply list_elem_of_lookup in Hr as [k Hk].
      apply (Hlater (S k)); [lia|done].
  - rewrite (IH j Hj Hq); [done|].
    intros k r Hk Hr. apply (Hlater (S k)); [lia|done].
Qed.

Section Claims.

Variable parseopts : list string -> list string.
Variable cram_main : list string -> gmap string entry -> Z.
Variable overflow_status : Z.

Lemma resolve_library_done st st1 :
  resolve_library st = Done st1 ->
  main_bound st = true /\ main_bound st1 = false /\
  (exists f, external_cram_file st = Some f /\
             sys_path st1 = dirname f :: sys_path st) /\
  fs st1 = fs st /\ environ st1 = environ st /\ tmp_names st1 = tmp_names st.
Proof.
  unfold resolve_library. destruct (main_bound st) eqn:Eb; simpl; [|discriminate].
  destruct (external_cram_file st) as [f|] eqn:Ef; [|discriminate].
  intros H. injection H as <-. simpl. eauto 10.
Qed.

Lemma stage_inputs_done args st args' st' :
  stage_inputs parseopts args st = Done (args', st') ->
  exists root td st1,
    environ st !! "TEST_TMPDIR" = Some root /\
    mkdtemp root st = Done (td, st1) /\
    stage_loop td (parseopts args) args (fs st1) = Done (args', fs st') /\
    st' = set_fs (fs st') st1.
Proof.
  unfold stage_inputs. destruct (environ st !! "TEST_TMPDIR") as [root|];
    [|discriminate].
  destruct (mkdtemp root st) as [[td st1]|] eqn:Em; [|discriminate].
  destruct (stage_loop td (parseopts args) args (fs st1)) as [[a m]|e [a m]]
    eqn:El; [|discriminate].
  intros H. injection H as <- <-. eauto 10.
Qed.

(** Everything the claims need about a run that reaches [cram.main]: the
    staging directory [td] is fresh, created by [mkdtemp] under
    [$TEST_TMPDIR], and the loop over the parsed paths succeeded. *)
Lemma main_call_done argv st args' st' :
  main_call parseopts argv st = Done (args', st') ->
  exists root name st0 st1,
    let td := join root ("tmp" ++ name) in
    resolve_library st = Done st0 /\
    environ st !! "TEST_TMPDIR" = Some root /\
    mkdtemp root st0 = Done (td, st1) /\
    fs st !! td = None /\ fs st !! root = Some Dir /\
    fs st1 = <[td := Dir]> (fs st) /\
    stage_loop td (parseopts (tl argv)) (tl argv) (fs st1) = Done (args', fs st') /\
    st' = set_fs (fs st') st1.
Proof.
  unfold main_call. destruct (resolve_library st) as [st0|] eqn:Er; [|discriminate].
  destruct (resolve_library_done _ _ Er) as (_ & _ & _ & Hfs & Henv & _).
  intros H. destruct (stage_inputs_done _ _ _ _ H) as (root & td & st1 & He & Hm & Hl & Hst).
  destruct (mkdtemp_done _ _ _ _ Hm) as (name & _ & -> & Hn & Hd & Hfs1 & _).
  rewrite Hfs in Hn, Hd, Hfs1. rewrite Henv in He.
  exists root, name, st0, st1. simpl. eauto 10.
Qed.

Lemma main_call_staging_dir argv st args' st' :
  main_call parseopts argv st = Done (args', st') ->
  exists td, fs st !! td = None /\ fs st' !! td = Some Dir /\
    stage_loop td (parseopts (tl argv)) (tl argv) (<[td := Dir]> (fs st))
      = Done (args', fs st').
Proof.
  intros H. destruct (main_call_done _ _ _ _ H)
    as (root & name & st0 & st1 & _ & _ & _ & Hn & _ & Hfs1 & Hl & _).
  exists (join root ("tmp" ++ name)). rewrite Hfs1 in Hl.
  split; [done|]. split; [|done].
  apply (stage_loop_keeps_dir _ _ _ _ _ _ _ Hl). by rewrite lookup_insert_eq.
Qed.

(** The scenario of the spec, for any random name [tmpNAME]. *)
Lemma stage_scenario st c name rest :
  parseopts ["--verbose"; "/src/test1.t"] = ["/src/test1.t"] ->
  environ st !! "TEST_TMPDIR" = Some "/tmp/root" ->
  fs st !! "/tmp/root" = Some Dir ->
  fs st !! "/src/test1.t" = Some (File c) ->
  tmp_names st = name :: rest ->
  has_slash name = false -> name <> "" ->
  fs st !! ("/tmp/root/tmp" ++ name) = None ->
  fs st !! ("/tmp/root/tmp" ++ name ++ "/test1.t") = None ->
  exists st',
    stage_inputs parseopts ["--verbose"; "/src/test1.t"] st =
      Done (["--verbose"; "/tmp/root/tmp" ++ name ++ "/test1.t"], st') /\
    fs st' !! ("/tmp/root/tmp" ++ name) = Some Dir /\
    fs st' !! ("/tmp/root/tmp" ++ name ++ "/test1.t") = Some (File c).
Proof.
  intros Hp He Hroot Hsrc Hn Hs Hne Htd Hdst.
  rewrite <- string_app_assoc in *.
  set (td := ("/tmp/root/tmp" ++ name)%string) in *.
  assert (Hmk : mkdtemp "/tmp/root" st =
    Done (td, set_fs (<[td := Dir]> (fs st)) (set_tmp_names rest st))).
  { unfold mkdtemp. rewrite Hn. cbn [mkdtemp_try].
    change (join "/tmp/root" ("tmp" ++ name)) with td.
    rewrite Htd, Hroot. reflexivity. }
  assert (Hd : join td (basename "/src/test1.t") = (td ++ "/test1.t")%string).
  { unfold join. change (basename "/src/test1.t") with "test1.t". cbn.
    assert (E1 : (td =? "")%string = false) by reflexivity.
    assert (E2 : ends_with_slash td = false).
    { unfold td. rewrite ends_with_slash_app by done.
      by apply ends_with_slash_noslash. }
    rewrite E1, E2. reflexivity. }
  unfold stage_inputs. rewrite Hp, He, Hmk. cbn [stage_loop].
  rewrite Hd. unfold copyfile. cbn [fs set_fs].
  assert (Hne1 : td <> "/src/test1.t") by (unfold td; discriminate).
  assert (Hne2 : td <> (td ++ "/test1.t")%string)
    by (apply string_app_neq_self; discriminate).
  assert (E3 : ("/src/test1.t" =? td ++ "/test1.t")%string = false)
    by reflexivity.
  rewrite E3, andb_false_l, lookup_insert_ne, Hsrc by done.
  rewrite ends_with_slash_app by discriminate.
  replace (ends_with_slash "/test1.t") with false by reflexivity.
  rewrite lookup_insert_ne, Hdst by done.
  rewrite rewrite_args_map. cbn [map].
  replace ("--verbose" =? "/src/test1.t")%string with false by reflexivity.
  rewrite String.eqb_refl.
  eexists. split; [reflexivity|]. cbn [fs set_fs].
  rewrite lookup_insert_eq, lookup_insert_ne, lookup_insert_eq by done.
  done.
Qed.

(** C1: the arguments handed to [cram.main] are [argv[1:]] with the same
    length and order; an entry equal to an identified test path [x] becomes
    [x]'s staged path inside the staging directory, any other entry keeps
    its value. *)
Theorem stage_inputs_substitutes_paths argv st args' st' :
  main_call parseopts argv st = Done (args', st') ->
  exists td, fs st !! td = None /\ fs st' !! td = Some Dir /\
    length args' = length (tl argv) /\
    forall i x, tl argv !! i = Some x ->
      args' !! i = Some (if existsb (String.eqb x) (parseopts (tl argv))
                         then staged_path td x else x).
Proof.
  intros H. destruct (main_call_staging_dir _ _ _ _ H) as (td & Hn & Hd & Hl).
  exists td. split; [done|]. split; [done|].
  rewrite (stage_loop_args _ _ _ _ _ _ Hl). split; [apply length_map|].
  intros i x Hx. by rewrite lookup_map_string, Hx.
Qed.

(** C3: when the parser identifies no test path, the arguments handed to
    [cram.main] are [argv[1:]] unchanged, and [main] has still been
    unbound and the directory of [external/cram] put in front of
    [sys.path]. *)
Theorem stage_inputs_identity_no_paths argv st args' st' :
  parseopts (tl argv) = [] ->
  main_call parseopts argv st = Done (args', st') ->
  args' = tl argv /\ main_bound st = true /\ main_bound st' = false /\
  exists f, external_cram_file st = Some f /\
            sys_path st' = dirname f :: sys_path st.
Proof.
  intros Hp H.
  destruct (main_call_done _ _ _ _ H)
    as (root & name & st0 & st1 & Hr & _ & Hm & _ & _ & _ & Hl & Hst).
  rewrite Hp in Hl. simpl in Hl. injection Hl as <- _.
  destruct (resolve_library_done _ _ Hr) as (Hb & Hb0 & (f & Hf & Hsp) & _).
  destruct (mkdtemp_try_keeps _ _ _ _ _ _ Hm) as (Hsp1 & Hb1 & _).
  rewrite Hst. simpl. rewrite Hsp1, Hb1. eauto 10.
Qed.

(** C4: all the positions holding the same identified test path [p]
    receive one and the same staged path. *)
Theorem stage_inputs_consistent_occurrences argv st args' st' :
  main_call parseopts argv st = Done (args', st') ->
  exists td, fs st !! td = None /\ fs st' !! td = Some Dir /\
    forall p i j, p ∈ parseopts (tl argv) ->
      tl argv !! i = Some p -> tl argv !! j = Some p ->
      args' !! i = Some (staged_path td p) /\ args' !! j = args' !! i.
Proof.
  intros H. destruct (main_call_staging_dir _ _ _ _ H) as (td & Hn & Hd & Hl).
  exists td. split; [done|]. split; [done|].
  intros p i j Hp Hi Hj. rewrite (stage_loop_args _ _ _ _ _ _ Hl).
  rewrite !lookup_map_string, Hi, Hj. simpl. unfold staged_arg.
  assert (Hex : existsb (String.eqb p) (parseopts (tl argv)) = true).
  { apply existsb_exists. exists p. split; [by apply list_elem_of_In|].
    apply String.eqb_refl. }
  by rewrite Hex.
Qed.

Lemma stage_inputs_no_env args st :
  environ st !! "TEST_TMPDIR" = None ->
  stage_inputs parseopts args st = Raised (KeyError "TEST_TMPDIR") (args, st).
Proof. unfold stage_inputs. by intros ->. Qed.

(** C6: with [TEST_TMPDIR] missing from [os.environ], staging raises
    [KeyError] and leaves the state as it found it: no directory is
    created and no file is copied. *)
Theorem stage_inputs_missing_tmpdir args st :
  environ st !! "TEST_TMPDIR" = None ->
  stage_inputs parseopts args st = Raised (KeyError "TEST_TMPDIR") (args, st).
Proof. apply stage_inputs_no_env. Qed.

(** C10: every run that reaches [cram.main] read [TEST_TMPDIR] and created
    a fresh directory, whatever the arguments; and without [TEST_TMPDIR]
    the run stops with [KeyError] after resolving the library, even when
    there is nothing to stage. *)
Theorem shim_always_needs_tmpdir argv st :
  (forall args' st', main_call parseopts argv st = Done (args', st') ->
     exists root td, environ st !! "TEST_TMPDIR" = Some root /\
       fs st !! td = None /\ fs st' !! td = Some Dir) /\
  (forall st0, environ st !! "TEST_TMPDIR" = None ->
     resolve_library st = Done st0 ->
     main_call parseopts argv st = Raised (KeyError "TEST_TMPDIR") (tl argv, st0) /\
     fs st0 = fs st).
Proof.
  split.
  - intros args' st' H.
    destruct (main_call_done _ _ _ _ H) as (root & _ & _ & _ & _ & He & _).
    destruct (main_call_staging_dir _ _ _ _ H) as (td & Hn & Hd & _). eauto.
  - intros st0 He Hr.
    destruct (resolve_library_done _ _ Hr) as (_ & _ & _ & Hfs & Henv & _).
    unfold main_call. rewrite Hr. split; [|done].
    apply stage_inputs_no_env. by rewrite Henv.
Qed.

(** C2 (amended): [main] hands the value [v] returned by [cram.main]
    unchanged to [sys.exit]. When [v] fits in a C [long], the process
    exit status is [v] modulo 256, which is [v] itself for every [v] in
    [0..255]; a [v] outside that range gives the fixed overflow status
    of the interpreter instead. *)
Theorem shim_exit_status argv st args st1 :
  main_call parseopts argv st = Done (args, st1) ->
  let v := cram_main args (fs st1) in
  ((LONG_MIN <= v <= LONG_MAX)%Z ->
   main parseopts cram_main overflow_status argv st = Done (v mod 256)%Z) /\
  ((0 <= v < 256)%Z ->
   main parseopts cram_main overflow_status argv st = Done v) /\
  (~ (LONG_MIN <= v <= LONG_MAX)%Z ->
   main parseopts cram_main overflow_status argv st = Done overflow_status).
Proof.
  intros H v. unfold main. rewrite H. change (cram_main args (fs st1)) with v.
  assert (Hmin : LONG_MIN = (-9223372036854775808)%Z) by reflexivity.
  assert (Hmax : LONG_MAX = 9223372036854775807%Z) by reflexivity.
  unfold sys_exit. rewrite Hmin, Hmax.
  change 255%Z with (Z.ones 8). rewrite Z.land_ones by lia.
  destruct ((-9223372036854775808 <=? v)%Z && (v <=? 9223372036854775807)%Z) eqn:E.
  - apply andb_true_iff in E as [E1 E2]. apply Z.leb_le in E1, E2.
    split; [done|]. split; [intros Hr; by rewrite Z.mod_small|].
    intros Hn. exfalso. apply Hn. lia.
  - assert (Hout : ~ (-9223372036854775808 <= v <= 9223372036854775807)%Z).
    { apply andb_false_iff in E as [E|E]; apply Z.leb_gt in E; lia. }
    split; [intros Hr; exfalso; apply Hout; lia|].
    split; [intros Hr; exfalso; apply Hout; lia|done].
Qed.

(** C5 (amended): after a successful staging, the staged file of each
    identified path [p] holds the original bytes of the last identified
    path [q] with the same base name (the last copy to that destination);
    when no other identified path shares [p]'s base name, these are [p]'s
    own bytes. *)
Theorem staged_file_content argv st args' st' :
  main_call parseopts argv st = Done (args', st') ->
  exists td, fs st !! td = None /\ fs st' !! td = Some Dir /\
  forall p, p ∈ parseopts (tl argv) ->
    (exists q c,
       last_source td (parseopts (tl argv)) (staged_path td p) = Some q /\
       basename q = basename p /\
       fs st !! q = Some (File c) /\ fs st' !! staged_path td p = Some (File c)) /\
    ((forall q, q ∈ parseopts (tl argv) -> basename q = basename p -> q = p) ->
       fs st' !! staged_path td p = fs st !! p).
Proof.
  intros H. destruct (main_call_staging_dir _ _ _ _ H) as (td & Hn & Hd & Hl).
  exists td. split; [done|]. split; [done|].
  intros p Hp.
  destruct (last_source_self td _ p Hp) as [q Hq].
  destruct (last_source_in _ _ _ _ Hq) as [Hqin Hqd].
  destruct (stage_loop_sources _ _ _ _ _ Hl q Hqin) as [c Hc].
  assert (Hqtd : q <> td) by (intros ->; by rewrite lookup_insert_eq in Hc).
  rewrite lookup_insert_ne in Hc by done.
  assert (Hst : fs st' !! staged_path td p = Some (File c))
    by (rewrite (stage_loop_fs _ _ _ _ _ _ Hl), Hq, lookup_insert_ne; done).
  apply staged_path_eq_iff in Hqd.
  split; [exists q, c; done|].
  intros Huniq. pose proof (Huniq q Hqin Hqd) as ->. by rewrite Hst, Hc.
Qed.

(** C7: a run that reaches [cram.main] created [td = join(root, "tmp" +
    name)] under [root = $TEST_TMPDIR], and each identified [p] was
    copied to [join(td, basename(p))]; in the spec's scenario, with
    [TEST_TMPDIR=/tmp/root] and arguments [--verbose /src/test1.t],
    [/src/test1.t] is copied to [/tmp/root/tmpNAME/test1.t] and the
    arguments become [--verbose /tmp/root/tmpNAME/test1.t]. *)
Theorem stage_inputs_staged_location :
  (forall argv st args' st',
     main_call parseopts argv st = Done (args', st') ->
     exists root name,
       environ st !! "TEST_TMPDIR" = Some root /\
       fs st !! join root ("tmp" ++ name) = None /\
       fs st' !! join root ("tmp" ++ name) = Some Dir /\
       forall p, p ∈ parseopts (tl argv) ->
         exists c, fs st' !! join (join root ("tmp" ++ name)) (basename p)
                   = Some (File c)) /\
  (forall st c name rest,
     parseopts ["--verbose"; "/src/test1.t"] = ["/src/test1.t"] ->
     environ st !! "TEST_TMPDIR" = Some "/tmp/root" ->
     fs st !! "/tmp/root" = Some Dir ->
     fs st !! "/src/test1.t" = Some (File c) ->
     tmp_names st = name :: rest ->
     has_slash name = false -> name <> "" ->
     fs st !! ("/tmp/root/tmp" ++ name) = None ->
     fs st !! ("/tmp/root/tmp" ++ name ++ "/test1.t") = None ->
     exists st',
       stage_inputs parseopts ["--verbose"; "/src/test1.t"] st =
         Done (["--verbose"; "/tmp/root/tmp" ++ name ++ "/test1.t"], st') /\
       fs st' !! ("/tmp/root/tmp" ++ name) = Some Dir /\
       fs st' !! ("/tmp/root/tmp" ++ name ++ "/test1.t") = Some (File c)).
Proof.
  split; [|exact stage_scenario].
  intros argv st args' st' H.
  destruct (main_call_done _ _ _ _ H)
    as (root & name & st0 & st1 & _ & He & _ & Hn & _ & Hfs1 & Hl & _).
  rewrite Hfs1 in Hl. exists root, name.
  split; [done|]. split; [done|]. split.
  - apply (stage_loop_keeps_dir _ _ _ _ _ _ _ Hl). by rewrite lookup_insert_eq.
  - intros p Hp. exact (stage_loop_staged_file _ _ _ _ _ _ Hl p Hp).
Qed.

(** C8: when the copy of the identified path at index [k] raises, the
    exception leaves the state of the first [k] iterations in place:
    their staged files stay on disk and their rewrites stay in [args];
    nothing is undone and the failing copy is not tried again. *)
Theorem stage_inputs_no_rollback args st root td st1 k p e m2 a1 m1 :
  environ st !! "TEST_TMPDIR" = Some root ->
  mkdtemp root st = Done (td, st1) ->
  stage_loop td (take k (parseopts args)) args (fs st1) = Done (a1, m1) ->
  parseopts args !! k = Some p ->
  copyfile p (staged_path td p) m1 = Raised e m2 ->
  stage_inputs parseopts args st = Raised e (a1, set_fs m1 st1) /\
  a1 = map (staged_arg td (take k (parseopts args))) args /\
  forall q, q ∈ take k (parseopts args) ->
    exists c, m1 !! staged_path td q = Some (File c).
Proof.
  intros He Hm Hl Hk Hc.
  split; [|split].
  - unfold stage_inputs. rewrite He, Hm.
    rewrite <- (take_drop_middle (parseopts args) k p Hk) at 1.
    rewrite stage_loop_app, Hl. cbn [stage_loop].
    unfold staged_path in Hc. rewrite Hc.
    by rewrite (copyfile_raised _ _ _ _ _ Hc).
  - exact (stage_loop_args _ _ _ _ _ _ Hl).
  - exact (stage_loop_staged_file _ _ _ _ _ _ Hl).
Qed.

(** C9 (amended): two identified paths [p] (earlier) and [q] (later) with
    the same base name are staged to the same destination; the later copy
    overwrites the earlier one, so when [q] is the last identified path
    with that base name the destination holds [q]'s original bytes, and
    [p]'s bytes survive only where they equal those. *)
Theorem same_basename_last_copy_wins argv st args' st' :
  main_call parseopts argv st = Done (args', st') ->
  exists td, fs st !! td = None /\ fs st' !! td = Some Dir /\
  forall i j p q,
    parseopts (tl argv) !! i = Some p -> parseopts (tl argv) !! j = Some q ->
    i < j -> basename p = basename q ->
    staged_path td p = staged_path td q /\
    ((forall k r, j < k -> parseopts (tl argv) !! k = Some r ->
        basename r <> basename q) ->
     exists c, fs st !! q = Some (File c) /\
               fs st' !! staged_path td p = Some (File c)).
Proof.
  intros H. destruct (main_call_staging_dir _ _ _ _ H) as (td & Hn & Hd & Hl).
  exists td. split; [done|]. split; [done|].
  intros i j p q Hi Hj _ Hb.
  assert (Hpq : staged_path td p = staged_path td q)
    by (by apply staged_path_eq_iff).
  split; [done|]. intros Hlast.
  assert (Hq : last_source td (parseopts (tl argv)) (staged_path td p) = Some q).
  { apply (last_source_last _ _ _ j); [done|done|].
    intros k r Hk Hr. rewrite Hpq. intros E%staged_path_eq_iff.
    exact (Hlast k r Hk Hr E). }
  assert (Hqin : q ∈ parseopts (tl argv)) by (by eapply list_elem_of_lookup_2).
  destruct (stage_loop_sources _ _ _ _ _ Hl q Hqin) as [c Hc].
  assert (Hqtd : q <> td) by (intros ->; by rewrite lookup_insert_eq in Hc).
  rewrite lookup_insert_ne in Hc by done.
  exists c. split; [done|].
  by rewrite (stage_loop_fs _ _ _ _ _ _ Hl), Hq, lookup_insert_ne.
Qed.

End Claims.

(** ** Concrete runs *)

Lemma stage_inputs_substitutes_paths_witness :
  exists a s,
    main_call positional_args ["cram"; "--verbose"; "/src/test1.t"] ex_state
      = Done (a, s) /\
    exists td, fs ex_state !! td = None /\ fs s !! td = Some Dir /\
      length a = length (tl ["cram"; "--verbose"; "/src/test1.t"]) /\
      forall i x, tl ["cram"; "--verbose"; "/src/test1.t"] !! i = Some x ->
        a !! i = Some (if existsb (String.eqb x)
                            (positional_args (tl ["cram"; "--verbose"; "/src/test1.t"]))
                       then staged_path td x else x).
Proof.
  destruct (main_call positional_args ["cram"; "--verbose"; "/src/test1.t"] ex_state)
    as [[a s]|e s] eqn:E; [|vm_compute in E; discriminate].
  exists a, s. split; [reflexivity|].
  exact (stage_inputs_substitutes_paths positional_args _ _ _ _ E).
Defined.

Lemma shim_exit_status_witness :
  exists a s,
    main_call positional_args ["cram"; "/src/test1.t"] ex_state = Done (a, s) /\
    ((LONG_MIN <= 1 <= LONG_MAX)%Z ->
     main positional_args (fun _ _ => 1%Z) 255 ["cram"; "/src/test1.t"] ex_state
       = Done (1 mod 256)%Z) /\
    ((0 <= 1 < 256)%Z ->
     main positional_args (fun _ _ => 1%Z) 255 ["cram"; "/src/test1.t"] ex_state
       = Done 1%Z) /\
    (~ (LONG_MIN <= 1 <= LONG_MAX)%Z ->
     main positional_args (fun _ _ => 1%Z) 255 ["cram"; "/src/test1.t"] ex_state
       = Done 255%Z).
Proof.
  destruct (main_call positional_args ["cram"; "/src/test1.t"] ex_state)
    as [[a s]|e s] eqn:E; [|vm_compute in E; discriminate].
  exists a, s. split; [reflexivity|].
  exact (shim_exit_status positional_args (fun _ _ => 1%Z) 255 _ _ _ _ E).
Defined.

(** [cram.main] returning 256 gives the exit status 0; returning [2^64],
    which no C [long] holds, gives Python 3's status 255. *)
Lemma shim_exit_status_counterexample :
  main positional_args (fun _ _ => 256%Z) 255 ["cram"] ex_state = Done 0%Z /\
  (0 <> 256)%Z /\
  main positional_args (fun _ _ => 2 ^ 64)%Z 255 ["cram"] ex_state = Done 255%Z.
Proof. split; [vm_compute; reflexivity|]. split; [discriminate|vm_compute; reflexivity]. Qed.

Lemma stage_inputs_identity_no_paths_witness :
  exists a s,
    main_call positional_args ["cram"; "--verbose"] ex_state = Done (a, s) /\
    a = tl ["cram"; "--verbose"] /\ main_bound ex_state = true /\
    main_bound s = false /\
    exists f, external_cram_file ex_state = Some f /\
              sys_path s = dirname f :: sys_path ex_state.
Proof.
  destruct (main_call positional_args ["cram"; "--verbose"] ex_state)
    as [[a s]|e s] eqn:E; [|vm_compute in E; discriminate].
  exists a, s. split; [reflexivity|].
  exact (stage_inputs_identity_no_paths positional_args ["cram"; "--verbose"]
           ex_state a s ltac:(reflexivity) E).
Defined.

Lemma stage_inputs_consistent_occurrences_witness :
  exists a s,
    main_call positional_args ["cram"; "/src/test1.t"; "-v"; "/src/test1.t"] ex_state
      = Done (a, s) /\
    exists td, fs ex_state !! td = None /\ fs s !! td = Some Dir /\
      forall p i j,
        p ∈ positional_args (tl ["cram"; "/src/test1.t"; "-v"; "/src/test1.t"]) ->
        tl ["cram"; "/src/test1.t"; "-v"; "/src/test1.t"] !! i = Some p ->
        tl ["cram"; "/src/test1.t"; "-v"; "/src/test1.t"] !! j = Some p ->
        a !! i = Some (staged_path td p) /\ a !! j = a !! i.
Proof.
  destruct (main_call positional_args ["cram"; "/src/test1.t"; "-v"; "/src/test1.t"]
              ex_state) as [[a s]|e s] eqn:E; [|vm_compute in E; discriminate].
  exists a, s. split; [reflexivity|].
  exact (stage_inputs_consistent_occurrences positional_args _ _ _ _ E).
Defined.

Lemma staged_file_content_witness :
  exists a s,
    main_call positional_args ["cram"; "/a/t.t"; "/b/t.t"] ex_state = Done (a, s) /\
    exists td, fs ex_state !! td = None /\ fs s !! td = Some Dir /\
    forall p, p ∈ positional_args (tl ["cram"; "/a/t.t"; "/b/t.t"]) ->
      (exists q c,
         last_source td (positional_args (tl ["cram"; "/a/t.t"; "/b/t.t"]))
           (staged_path td p) = Some q /\
         basename q = basename p /\
         fs ex_state !! q = Some (File c) /\ fs s !! staged_path td p = Some (File c)) /\
      ((forall q, q ∈ positional_args (tl ["cram"; "/a/t.t"; "/b/t.t"]) ->
          basename q = basename p -> q = p) ->
         fs s !! staged_path td p = fs ex_state !! p).
Proof.
  destruct (main_call positional_args ["cram"; "/a/t.t"; "/b/t.t"] ex_state)
    as [[a s]|e s] eqn:E; [|vm_compute in E; discriminate].
  exists a, s. split; [reflexivity|].
  exact (staged_file_content positional_args _ _ _ _ E).
Defined.

(** [/a/t.t] and [/b/t.t] share the base name [t.t]: the staged file of
    [/a/t.t] ends up with the bytes of [/b/t.t]. *)
Lemma staged_file_content_counterexample :
  exists a s,
    main_call positional_args ["cram"; "/a/t.t"; "/b/t.t"] ex_state = Done (a, s) /\
    fs s !! ex_td = Some Dir /\
    fs s !! staged_path ex_td "/a/t.t" <> fs ex_state !! "/a/t.t".
Proof.
  vm_compute. eexists _, _. split; [reflexivity|].
  split; [vm_compute; reflexivity | vm_compute; discriminate].
Qed.

Lemma stage_inputs_missing_tmpdir_witness :
  stage_inputs positional_args ["--verbose"; "/src/test1.t"] ex_state_noenv =
    Raised (KeyError "TEST_TMPDIR") (["--verbose"; "/src/test1.t"], ex_state_noenv).
Proof.
  apply (stage_inputs_missing_tmpdir positional_args). reflexivity.
Defined.

Lemma stage_inputs_staged_location_witness :
  exists st',
    stage_inputs positional_args ["--verbose"; "/src/test1.t"] ex_state =
      Done (["--verbose"; "/tmp/root/tmp" ++ "XXXX" ++ "/test1.t"], st') /\
    fs st' !! ("/tmp/root/tmp" ++ "XXXX") = Some Dir /\
    fs st' !! ("/tmp/root/tmp" ++ "XXXX" ++ "/test1.t") = Some (File [Byte.x41; Byte.x0a]).
Proof.
  apply (proj2 (stage_inputs_staged_location positional_args) ex_state
           [Byte.x41; Byte.x0a] "XXXX" ["YYYY"]);
    try reflexivity; try discriminate.
Defined.

Lemma stage_inputs_no_rollback_witness :
  stage_inputs positional_args ["/src/test1.t"; "/missing.t"] ex_state =
    Raised (FileNotFoundError "/missing.t")
      (["/tmp/root/tmpXXXX/test1.t"; "/missing.t"], set_fs ex_fs1 ex_state1) /\
  ["/tmp/root/tmpXXXX/test1.t"; "/missing.t"] =
    map (staged_arg ex_td (take 1 (positional_args ["/src/test1.t"; "/missing.t"])))
        ["/src/test1.t"; "/missing.t"] /\
  forall q, q ∈ take 1 (positional_args ["/src/test1.t"; "/missing.t"]) ->
    exists c, ex_fs1 !! staged_path ex_td q = Some (File c).
Proof.
  apply (stage_inputs_no_rollback positional_args _ _ "/tmp/root" ex_td ex_state1
           1 "/missing.t" _ ex_fs1); vm_compute; reflexivity.
Defined.

Lemma same_basename_last_copy_wins_witness :
  exists a s,
    main_call positional_args ["cram"; "/a/t.t"; "/b/t.t"] ex_state = Done (a, s) /\
    exists td, fs ex_state !! td = None /\ fs s !! td = Some Dir /\
    forall i j p q,
      positional_args (tl ["cram"; "/a/t.t"; "/b/t.t"]) !! i = Some p ->
      positional_args (tl ["cram"; "/a/t.t"; "/b/t.t"]) !! j = Some q ->
      i < j -> basename p = basename q ->
      staged_path td p = staged_path td q /\
      ((forall k r, j < k ->
          positional_args (tl ["cram"; "/a/t.t"; "/b/t.t"]) !! k = Some r ->
          basename r <> basename q) ->
       exists c, fs ex_state !! q = Some (File c) /\
                 fs s !! staged_path td p = Some (File c)).
Proof.
  destruct (main_call positional_args ["cram"; "/a/t.t"; "/b/t.t"] ex_state)
    as [[a s]|e s] eqn:E; [|vm_compute in E; discriminate].
  exists a, s. split; [reflexivity|].
  exact (same_basename_last_copy_wins positional_args _ _ _ _ E).
Defined.

(** [/a/t.t] and [/c/t.t] share the base name and the bytes: after the
    second copy overwrites the first, the staged file still holds the
    bytes of [/a/t.t]. *)
Lemma same_basename_last_copy_wins_counterexample :
  exists a s,
    main_call positional_args ["cram"; "/a/t.t"; "/c/t.t"] ex_state = Done (a, s) /\
    staged_path ex_td "/a/t.t" = staged_path ex_td "/c/t.t" /\
    fs s !! staged_path ex_td "/a/t.t" = fs ex_state !! "/a/t.t".
Proof.
  vm_compute. eexists _, _. split; [reflexivity|].
  split; vm_compute; reflexivity.
Qed.

Lemma shim_always_needs_tmpdir_witness :
  exists st0,
    resolve_library ex_state_noenv = Done st0 /\
    main_call positional_args ["cram"; "--verbose"] ex_state_noenv =
      Raised (KeyError "TEST_TMPDIR") (tl ["cram"; "--verbose"], st0) /\
    fs st0 = fs ex_state_noenv.
Proof.
  destruct (resolve_library ex_state_noenv) as [st0|e s] eqn:E;
    [|vm_compute in E; discriminate].
  exists st0. split; [reflexivity|].
  exact (proj2 (shim_always_needs_tmpdir positional_args ["cram"; "--verbose"]
                  ex_state_noenv) st0 ltac:(reflexivity) E).
Defined.

(** ** Further properties of the shim and of what it calls *)

Lemma mkdtemp_try_raised dir seq names st e st1 :
  mkdtemp_try dir seq names st = Raised e st1 ->
  fs st1 = fs st /\ main_bound st1 = main_bound st /\
  sys_path st1 = sys_path st /\ environ st1 = environ st.
Proof.
  revert seq st. induction names as [|name rest IH]; intros seq st; simpl.
  - intros H. by injection H as _ <-.
  - destruct (TMP_MAX <=? seq)%N; [intros H; by injection H as _ <-|].
    destruct (fs st !! join dir ("tmp" ++ name)).
    + intros H. exact (IH _ _ H).
    + destruct (fs st !! dir) as [[]|]; try discriminate;
        intros H; by injection H as _ <-.
Qed.

Lemma copyfile_dst_ok p d m m' :
  copyfile p d m = Done m' -> ends_with_slash d = false.
Proof.
  unfold copyfile.
  destruct (String.eqb p d && _); [discriminate|].
  destruct (m !! p) as [[c|]|]; try discriminate.
  by destruct (ends_with_slash d).
Qed.

(** Every destination the loop wrote is a proper file path: it does not
    end in a slash and it is not the staging directory itself. *)
Lemma stage_loop_dests td ps args m args' m' :
  stage_loop td ps args m = Done (args', m') -> m !! td = Some Dir ->
  forall q, q ∈ ps ->
    ends_with_slash (staged_path td q) = false /\ staged_path td q <> td.
Proof.
  revert args m. induction ps as [|p ps IH]; intros args m; simpl.
  - intros _ _ q Hq. by apply not_elem_of_nil in Hq.
  - destruct (copyfile p (join td (basename p)) m) as [m1|] eqn:Ec;
      [|discriminate].
    pose proof (copyfile_dst_ok _ _ _ _ Ec) as Hs.
    destruct (copyfile_done _ _ _ _ Ec) as (_ & Hd & c & _ & ->).
    fold (staged_path td p) in *.
    intros H Htd.
    assert (Hne : staged_path td p <> td) by (intros E; apply Hd; by rewrite E).
    intros q [->|Hq]%elem_of_cons; [by split|].
    apply (IH _ _ H); [|done]. by rewrite lookup_insert_ne.
Qed.

Lemma head_part_sep a b :
  has_slash b = false -> head_part (a ++ String "/" b) = (a ++ "/")%string.
Proof.
  intros Hb. induction a as [|c a IH]; simpl; [by rewrite Hb|].
  rewrite has_slash_app. simpl. rewrite orb_true_r. by rewrite IH.
Qed.

Lemma rstrip_slash_sep a :
  a <> "" -> ends_with_slash a = false -> rstrip_slash (a ++ "/") = a.
Proof.
  induction a as [|c a IH]; [done|]. intros _ He.
  destruct a as [|c' a'].
  - simpl in *. rewrite He. reflexivity.
  - change (String c (String c' a') ++ "/")%string
      with (String c (String c' a' ++ "/")).
    assert (Hc : forall s, rstrip_slash (String c s) =
      if String.eqb (rstrip_slash s) "" && is_slash c then EmptyString
      else String c (rstrip_slash s)) by reflexivity.
    rewrite Hc, IH by done. reflexivity.
Qed.

Lemma all_slashes_sep a :
  a <> "" -> ends_with_slash a = false -> all_slashes (a ++ "/") = false.
Proof.
  induction a as [|c a IH]; [done|]. intros _ He.
  destruct a as [|c' a'].
  - simpl in *. by rewrite He.
  - change (String c (String c' a') ++ "/")%string
      with (String c (String c' a' ++ "/")).
    assert (Hc : forall s, all_slashes (String c s) = is_slash c && all_slashes s)
      by reflexivity.
    rewrite Hc, IH by done. apply andb_false_r.
Qed.

(** [dirname(a + "/" + b) = a] for a last component [b] and a head [a]
    that does not end in a slash. *)
Lemma dirname_sep a b :
  a <> "" -> ends_with_slash a = false -> has_slash b = false ->
  dirname (a ++ String "/" b) = a.
Proof.
  intros Ha He Hb. unfold dirname. rewrite head_part_sep by done.
  rewrite all_slashes_sep by done.
  assert (E : String.eqb (a ++ "/") "" = false).
  { destruct a; [done|reflexivity]. }
  rewrite E. simpl. by apply rstrip_slash_sep.
Qed.

Lemma join_sep td b :
  td <> "" -> ends_with_slash td = false -> has_slash b = false ->
  join td b = (td ++ String "/" b)%string.
Proof.
  intros Ht He Hb. unfold join. rewrite starts_with_slash_has by done.
  assert (E : String.eqb td "" = false) by (by apply String.eqb_neq).
  by rewrite E, He.
Qed.

Lemma string_app_nil_r (a : string) : (a ++ "")%string = a.
Proof. induction a as [|x a IH]; [reflexivity|]. exact (f_equal (String x) IH). Qed.

Lemma string_app_nonempty (a b : string) : b <> "" -> (a ++ b)%string <> "".
Proof. intros Hb. destruct a; [exact Hb|discriminate]. Qed.

Lemma has_slash_tmp name : has_slash name = false -> has_slash ("tmp" ++ name) = false.
Proof. intros H. rewrite has_slash_app, H. reflexivity. Qed.

(** The directory [mkdtemp] creates from a slash-free random name is a
    non-empty path that does not end in a slash. *)
Lemma join_tmp root name :
  has_slash name = false ->
  join root ("tmp" ++ name) <> "" /\ ends_with_slash (join root ("tmp" ++ name)) = false.
Proof.
  intros Hn. pose proof (has_slash_tmp _ Hn) as Ht.
  assert (Hne : ("tmp" ++ name)%string <> "") by discriminate.
  unfold join. rewrite starts_with_slash_has by done.
  destruct (String.eqb root "" || ends_with_slash root).
  - split; [by apply string_app_nonempty|].
    rewrite ends_with_slash_app by done. by apply ends_with_slash_noslash.
  - split; [apply string_app_nonempty; discriminate|].
    rewrite !ends_with_slash_app by (done || discriminate).
    by apply ends_with_slash_noslash.
Qed.

(** [os.path.join(td, "")] is [td] itself or ends in a slash. *)
Lemma join_empty td : join td "" = td \/ ends_with_slash (join td "") = true.
Proof.
  unfold join. cbn [starts_with_slash].
  destruct (String.eqb td "" || ends_with_slash td).
  - left. apply string_app_nil_r.
  - right. rewrite ends_with_slash_app by discriminate. reflexivity.
Qed.

(** A path with an empty base name cannot be staged. *)
Lemma stage_loop_nonempty_base td ps args m args' m' q :
  stage_loop td ps args m = Done (args', m') -> m !! td = Some Dir ->
  q ∈ ps -> basename q <> "".
Proof.
  intros H Htd Hq Hb.
  destruct (stage_loop_dests _ _ _ _ _ _ H Htd q Hq) as [Hs Hne].
  unfold staged_path in Hs, Hne. rewrite Hb in Hs, Hne.
  destruct (join_empty td) as [E|E]; congruence.
Qed.

Lemma mkdtemp_try_shape dir seq names st :
  (forall td st1, mkdtemp_try dir seq names st = Done (td, st1) ->
     exists ns, st1 = set_fs (<[td := Dir]> (fs st)) (set_tmp_names ns st)) /\
  (forall e st1, mkdtemp_try dir seq names st = Raised e st1 ->
     exists ns, st1 = set_tmp_names ns st).
Proof.
  revert seq st. induction names as [|name rest IH]; intros seq st; simpl.
  - split; [discriminate|]. intros e st1 H. injection H as _ <-. by eexists.
  - destruct (TMP_MAX <=? seq)%N.
    { split; [discriminate|]. intros e st1 H. injection H as _ <-. by eexists. }
    destruct (fs st !! join dir ("tmp" ++ name)) as [old|].
    + destruct (IH (N.succ seq) (set_tmp_names rest st)) as [IH1 IH2]. split.
      * intros td st1 H. destruct (IH1 _ _ H) as [ns ->]. by exists ns.
      * intros e st1 H. destruct (IH2 _ _ H) as [ns ->]. by exists ns.
    + destruct (fs st !! dir) as [[]|]; split; intros ? ? H; try discriminate.
      all: injection H; intros; subst; by eexists.
Qed.

Lemma stage_inputs_shape (parseopts : list string -> list string) args st :
  exists m ns, outcome_state (stage_inputs parseopts args st) = set_fs m (set_tmp_names ns st).
Proof.
  destruct st as [f en sp b x ns0]. set (st := mkState f en sp b x ns0).
  unfold stage_inputs. change (environ st) with en.
  destruct (en !! "TEST_TMPDIR") as [root|]; [|by exists f, ns0].
  destruct (mkdtemp root st) as [[td st1]|err st1] eqn:Em.
  - destruct (proj1 (mkdtemp_try_shape root 0 (tmp_names st) st) _ _ Em) as [ns ->].
    destruct (stage_loop _ _ _ _) as [[a m]|err [a m]]; by exists m, ns.
  - destruct (proj2 (mkdtemp_try_shape root 0 (tmp_names st) st) _ _ Em) as [ns ->].
    by exists f, ns.
Qed.

(** The three ways a call of [main] can go up to [cram.main]. *)
Lemma main_call_shape (parseopts : list string -> list string) argv st :
  (main_bound st = false /\ main_call parseopts argv st = Raised NameError (argv, st)) \/
  (main_bound st = true /\ external_cram_file st = None /\
   main_call parseopts argv st = Raised ImportError (argv, set_main_bound false st)) \/
  (exists f m ns, main_bound st = true /\ external_cram_file st = Some f /\
   outcome_state (main_call parseopts argv st) =
     set_fs m (set_tmp_names ns
       (set_sys_path (dirname f :: sys_path st) (set_main_bound false st)))).
Proof.
  unfold main_call, resolve_library.
  destruct (main_bound st) eqn:Eb; [|by left]. right.
  change (external_cram_file (set_main_bound false st)) with (external_cram_file st).
  destruct (external_cram_file st) as [f|] eqn:Ef; [right|by left].
  destruct (stage_inputs_shape parseopts (tl argv)
    (set_sys_path (dirname f :: sys_path st) (set_main_bound false st))) as (m & ns & E).
  by exists f, m, ns.
Qed.

Lemma resolve_library_raised_fs st e st1 :
  resolve_library st = Raised e st1 -> fs st1 = fs st.
Proof.
  unfold resolve_library. destruct (main_bound st); simpl.
  - destruct (external_cram_file st); [discriminate|]. by intros [= _ <-].
  - by intros [= _ <-].
Qed.

Lemma copyfile_grows p d m r (k : string) :
  (copyfile p d m = Done r \/ exists e, copyfile p d m = Raised e r) ->
  (is_Some (m !! k) -> is_Some (r !! k)) /\ (m !! k = Some Dir -> r !! k = Some Dir).
Proof.
  intros [H|[e H]].
  - destruct (copyfile_done _ _ _ _ H) as (_ & Hd & c & _ & ->).
    destruct (String.eqb_spec d k) as [<-|Hk].
    + rewrite lookup_insert_eq. split; [by eexists|]. intros E. by apply Hd in E.
    + by rewrite lookup_insert_ne.
  - apply copyfile_raised in H as ->. done.
Qed.

Lemma stage_loop_grows td ps args m (k : string) :
  (is_Some (m !! k) -> is_Some (outcome_fs (stage_loop td ps args m) !! k)) /\
  (m !! k = Some Dir -> outcome_fs (stage_loop td ps args m) !! k = Some Dir).
Proof.
  revert args m. induction ps as [|p ps IH]; intros args m; simpl; [done|].
  destruct (copyfile p (join td (basename p)) m) as [m1|e m1] eqn:Ec.
  - destruct (copyfile_grows p _ m m1 k (or_introl Ec)) as [G1 G2].
    destruct (IH (rewrite_args p (join td (basename p)) args) m1) as [I1 I2].
    split; auto.
  - exact (copyfile_grows p _ m m1 k (or_intror (ex_intro _ e Ec))).
Qed.

Lemma stage_inputs_grows (parseopts : list string -> list string) args st (k : string) :
  (is_Some (fs st !! k) -> is_Some (fs (outcome_state (stage_inputs parseopts args st)) !! k)) /\
  (fs st !! k = Some Dir -> fs (outcome_state (stage_inputs parseopts args st)) !! k = Some Dir).
Proof.
  unfold stage_inputs. destruct (environ st !! "TEST_TMPDIR") as [root|]; [|done].
  destruct (mkdtemp root st) as [[td st1]|e st1] eqn:Em.
  - destruct (mkdtemp_done _ _ _ _ Em) as (_ & _ & _ & Hn & _ & Hfs & _).
    destruct (stage_loop_grows td (parseopts args) args (fs st1) k) as [G1 G2].
    assert (Hk : (is_Some (fs st !! k) -> is_Some (fs st1 !! k)) /\
                 (fs st !! k = Some Dir -> fs st1 !! k = Some Dir)).
    { rewrite Hfs. destruct (String.eqb_spec td k) as [<-|Hk].
      - rewrite Hn, lookup_insert_eq. split; [by eexists|discriminate].
      - by rewrite lookup_insert_ne. }
    destruct Hk as [K1 K2].
    destruct (stage_loop td (parseopts args) args (fs st1)) as [[a m]|e [a m]];
      simpl in *; split; auto.
  - unfold mkdtemp in Em.
    destruct (mkdtemp_try_raised _ _ _ _ _ _ Em) as (Hfs & _). simpl. by rewrite Hfs.
Qed.

Lemma mkdtemp_try_first_free dir seq skipped name rest st :
  (seq + N.of_nat (length skipped) < TMP_MAX)%N ->
  (forall n, n ∈ skipped -> is_Some (fs st !! join dir ("tmp" ++ n))) ->
  fs st !! join dir ("tmp" ++ name) = None ->
  fs st !! dir = Some Dir ->
  mkdtemp_try dir seq (skipped ++ name :: rest)%list st =
    Done (join dir ("tmp" ++ name),
          set_fs (<[join dir ("tmp" ++ name) := Dir]> (fs st)) (set_tmp_names rest st)).
Proof.
  revert seq st. induction skipped as [|n sk IH]; intros seq st Hlen Hsk Hfree Hdir; simpl.
  - assert (E : (TMP_MAX <=? seq)%N = false) by (apply N.leb_gt; simpl in Hlen; lia).
    by rewrite E, Hfree, Hdir.
  - cbn [length] in Hlen.
    assert (E : (TMP_MAX <=? seq)%N = false) by (apply N.leb_gt; lia).
    rewrite E.
    destruct (Hsk n ltac:(by left)) as [x Hx]. rewrite Hx.
    apply (IH (N.succ seq) (set_tmp_names (sk ++ name :: rest)%list st));
      [lia| |done|done].
    intros n' Hn'. apply Hsk. by right.
Qed.

Section Extras.

Variable parseopts : list string -> list string.

(** [main] runs at most once: whatever the outcome of a call, [main] is
    unbound afterwards, and a second call raises [NameError] at
    [del main] before doing anything. *)
Theorem main_not_reentrant argv argv' st :
  let st' := outcome_state (main_call parseopts argv st) in
  main_bound st' = false /\
  main_call parseopts argv' st' = Raised NameError (argv', st').
Proof.
  intros st'.
  assert (Hb : main_bound st' = false).
  { unfold st'.
    destruct (main_call_shape parseopts argv st)
      as [[Hb ->]|[(_ & _ & ->)|(f & m & ns & _ & _ & ->)]]; done. }
  split; [done|]. unfold main_call, resolve_library. by rewrite Hb.
Qed.

(** Once [external/cram] is found, every outcome, success or any error
    of the staging, leaves [sys.path] with the directory of the package
    in front of the old entries (nothing is removed, nothing is
    deduplicated), [main] unbound, and [os.environ] unchanged. *)
Theorem main_call_context argv st f :
  main_bound st = true -> external_cram_file st = Some f ->
  let st' := outcome_state (main_call parseopts argv st) in
  sys_path st' = dirname f :: sys_path st /\ main_bound st' = false /\
  environ st' = environ st /\ external_cram_file st' = Some f.
Proof.
  intros Hb Hf st'. unfold st'.
  destruct (main_call_shape parseopts argv st)
    as [[Hb' _]|[(_ & Hf' & _)|(f' & m & ns & _ & Hf' & ->)]]; try congruence.
  rewrite Hf in Hf'. injection Hf' as <-. cbn. by rewrite Hf.
Qed.

(** [sys.path.insert(0, os.path.dirname(fakecram.__file__))] for a
    package file [d/b]: the directory [d] goes in front of [sys.path]. *)
Theorem resolve_library_dirname st d b :
  main_bound st = true -> external_cram_file st = Some (d ++ String "/" b)%string ->
  d <> "" -> ends_with_slash d = false -> has_slash b = false ->
  resolve_library st = Done (set_sys_path (d :: sys_path st) (set_main_bound false st)).
Proof.
  intros Hb Hf Hd He Hs. unfold resolve_library. rewrite Hb. simpl.
  change (external_cram_file (set_main_bound false st)) with (external_cram_file st).
  rewrite Hf, dirname_sep by done. reflexivity.
Qed.

(** A run that reaches [cram.main] changes the file system in two ways
    only: it creates the staging directory and writes the staged
    destinations. The test files themselves keep their contents, and
    every other path keeps its entry. *)
Theorem main_call_frame argv st args' st' :
  main_call parseopts argv st = Done (args', st') ->
  exists td, fs st !! td = None /\ fs st' !! td = Some Dir /\
    (forall q, q ∈ parseopts (tl argv) -> fs st' !! q = fs st !! q) /\
    (forall k, k <> td -> (forall q, q ∈ parseopts (tl argv) -> k <> staged_path td q) ->
       fs st' !! k = fs st !! k).
Proof.
  intros H. destruct (main_call_staging_dir parseopts argv st args' st' H)
    as (td & Hn & Hd & Hl).
  exists td. split; [done|]. split; [done|]. split.
  - intros q Hq. rewrite (stage_loop_fs _ _ _ _ _ _ Hl q).
    rewrite last_source_none.
    2: { intros r Hr E. exact (staged_path_not_source _ _ _ _ _ r q Hl Hq (eq_sym E)). }
    destruct (stage_loop_sources _ _ _ _ _ Hl q Hq) as [c Hc].
    destruct (String.eqb_spec q td) as [->|Hqt]; [by rewrite lookup_insert_eq in Hc|].
    rewrite lookup_insert_ne; [done|congruence].
  - intros k Hk Hns. rewrite (stage_loop_fs _ _ _ _ _ _ Hl k).
    rewrite last_source_none.
    2: { intros r Hr E. exact (Hns r Hr (eq_sym E)). }
    rewrite lookup_insert_ne; [done|congruence].
Qed.

(** With random names free of slashes (those of [tempfile] are), each
    test file is staged directly inside the staging directory [td]: its
    base name is not empty, its destination is [td + "/" + basename(p)],
    and the directory of that destination is [td]. *)
Theorem main_call_staged_in_td argv st args' st' :
  main_call parseopts argv st = Done (args', st') ->
  (forall n, n ∈ tmp_names st -> has_slash n = false) ->
  exists td, fs st !! td = None /\ fs st' !! td = Some Dir /\
    forall q, q ∈ parseopts (tl argv) ->
      basename q <> "" /\
      staged_path td q = (td ++ String "/" (basename q))%string /\
      dirname (staged_path td q) = td.
Proof.
  intros H Hns. pose proof H as H0.
  unfold main_call in H. destruct (resolve_library st) as [st0|] eqn:Er; [|discriminate].
  destruct (resolve_library_done _ _ Er) as (_ & _ & _ & Hfs & _ & Htn).
  destruct (stage_inputs_done parseopts _ _ _ _ H) as (root & td & st1 & _ & Hm & Hl & _).
  destruct (mkdtemp_done _ _ _ _ Hm) as (name & Hin & Htd & Hn & _ & Hfs1 & _).
  rewrite Htn in Hin. rewrite Hfs in Hn, Hfs1. rewrite Hfs1 in Hl.
  destruct (join_tmp root name (Hns name Hin)) as [Hne Hes].
  rewrite <- Htd in Hne, Hes.
  assert (Htd' : (<[td := Dir]> (fs st)) !! td = Some Dir) by apply lookup_insert_eq.
  exists td. split; [done|]. split; [exact (stage_loop_keeps_dir _ _ _ _ _ _ _ Hl Htd')|].
  intros q Hq.
  pose proof (stage_loop_nonempty_base _ _ _ _ _ _ q Hl Htd' Hq) as Hb.
  assert (Hj : staged_path td q = (td ++ String "/" (basename q))%string)
    by (apply join_sep; [done|done|apply basename_slash_free]).
  split; [done|]. split; [done|]. rewrite Hj.
  apply dirname_sep; [done|done|apply basename_slash_free].
Qed.

(** An identified path with an empty base name (one that ends in a
    slash) can never be staged: [copyfile] then targets the staging
    directory itself or a path ending in a slash, so the run never
    reaches [cram.main]. *)
Theorem main_call_empty_basename argv st q :
  q ∈ parseopts (tl argv) -> basename q = "" ->
  forall r, main_call parseopts argv st <> Done r.
Proof.
  intros Hq Hb [args' st'] H.
  destruct (main_call_staging_dir parseopts argv st args' st' H) as (td & _ & _ & Hl).
  apply (stage_loop_nonempty_base _ _ _ _ _ _ q Hl); [by rewrite lookup_insert_eq|done|done].
Qed.

(** No argument handed to [cram.main] names an identified test file:
    every occurrence was replaced by its staged path, and no staged path
    is itself an identified test file. *)
Theorem main_call_no_original_paths argv st args' st' :
  main_call parseopts argv st = Done (args', st') ->
  forall a, a ∈ args' -> a ∉ parseopts (tl argv).
Proof.
  intros H a Ha Hin.
  destruct (main_call_staging_dir parseopts argv st args' st' H) as (td & _ & _ & Hl).
  rewrite (stage_loop_args _ _ _ _ _ _ Hl) in Ha.
  apply list_elem_of_In, in_map_iff in Ha as (x & <- & Hx).
  unfold staged_arg in Hin.
  destruct (existsb (String.eqb x) (parseopts (tl argv))) eqn:Ex.
  - exact (staged_path_not_source _ _ _ _ _ x _ Hl Hin eq_refl).
  - assert (Ht : existsb (String.eqb x) (parseopts (tl argv)) = true).
    { apply existsb_exists. exists x. split; [by apply list_elem_of_In|].
      apply String.eqb_refl. }
    congruence.
Qed.


(** The shim never deletes anything and never replaces a directory,
    whether the run succeeds or stops with an exception. *)
Theorem main_call_never_deletes argv st k :
  (is_Some (fs st !! k) -> is_Some (fs (outcome_state (main_call parseopts argv st)) !! k)) /\
  (fs st !! k = Some Dir -> fs (outcome_state (main_call parseopts argv st)) !! k = Some Dir).
Proof.
  unfold main_call. destruct (resolve_library st) as [st0|e st0] eqn:Er.
  - destruct (resolve_library_done _ _ Er) as (_ & _ & _ & Hfs & _).
    rewrite <- Hfs. apply stage_inputs_grows.
  - simpl. by rewrite (resolve_library_raised_fs _ _ _ Er).
Qed.

End Extras.

(** [tempfile.mkdtemp] takes the first drawn name whose candidate path
    is free: names whose candidate exists are skipped and consumed, the
    chosen one is created as a directory, and the names after it are
    left for later calls. *)
Theorem mkdtemp_first_free dir st skipped name rest :
  tmp_names st = (skipped ++ name :: rest)%list ->
  (N.of_nat (length skipped) < TMP_MAX)%N ->
  (forall n, n ∈ skipped -> is_Some (fs st !! join dir ("tmp" ++ n))) ->
  fs st !! join dir ("tmp" ++ name) = None ->
  fs st !! dir = Some Dir ->
  mkdtemp dir st =
    Done (join dir ("tmp" ++ name),
          set_fs (<[join dir ("tmp" ++ name) := Dir]> (fs st)) (set_tmp_names rest st)).
Proof.
  intros Hn Hlen Hsk Hfree Hdir. unfold mkdtemp. rewrite Hn.
  apply mkdtemp_try_first_free; [lia|done|done|done].
Qed.

(** Where [mkdtemp] puts the staging directory: for a root without a
    trailing slash and slash-free random names, the new directory [td]
    is a child of the root, named ["tmp" + name] for a drawn name, that
    did not exist before and is a directory afterwards. *)
Theorem mkdtemp_location root st td st1 :
  mkdtemp root st = Done (td, st1) -> root <> "" -> ends_with_slash root = false ->
  (forall n, n ∈ tmp_names st -> has_slash n = false) ->
  exists name, name ∈ tmp_names st /\ dirname td = root /\
    basename td = ("tmp" ++ name)%string /\
    fs st !! td = None /\ fs st1 !! td = Some Dir.
Proof.
  intros H Hr He Hns.
  destruct (mkdtemp_done _ _ _ _ H) as (name & Hin & Htd & Hn & _ & Hfs & _).
  pose proof (has_slash_tmp _ (Hns _ Hin)) as Ht.
  assert (Hj : td = (root ++ String "/" ("tmp" ++ name))%string)
    by (rewrite Htd; by apply join_sep).
  exists name. split; [done|]. split; [rewrite Hj; by apply dirname_sep|].
  split; [rewrite Hj; by apply basename_sep|].
  split; [done|]. by rewrite Hfs, lookup_insert_eq.
Qed.

(** The [enumerate] loop that rewrites [args] in place keeps the length
    and rewrites exactly the entries equal to [p], each read before the
    write at its own index. *)
Theorem rewrite_args_pointwise p dest args :
  length (rewrite_args p dest args) = length args /\
  forall i, rewrite_args p dest args !! i =
    (fun x => if String.eqb x p then dest else x) <$> args !! i.
Proof.
  rewrite rewrite_args_map. split; [apply length_map|].
  intros i. apply lookup_map_string.
Qed.

(** ** Concrete runs of the further properties *)

Lemma main_call_context_witness :
  let st' := outcome_state (main_call positional_args ["cram"; "/src/test1.t"] ex_state) in
  sys_path st' = dirname "/ext/external/cram/__init__.py" :: sys_path ex_state /\
  main_bound st' = false /\ environ st' = environ ex_state /\
  external_cram_file st' = Some "/ext/external/cram/__init__.py".
Proof. exact (main_call_context positional_args _ ex_state _ eq_refl eq_refl). Defined.

Lemma resolve_library_dirname_witness :
  resolve_library ex_state =
    Done (set_sys_path ("/ext/external/cram" :: sys_path ex_state)
                       (set_main_bound false ex_state)).
Proof.
  apply (resolve_library_dirname ex_state "/ext/external/cram" "__init__.py");
    [reflexivity|reflexivity|discriminate|reflexivity|reflexivity].
Defined.

Lemma main_call_frame_witness :
  exists a s,
    main_call positional_args ["cram"; "--verbose"; "/src/test1.t"] ex_state
      = Done (a, s) /\
    exists td, fs ex_state !! td = None /\ fs s !! td = Some Dir /\
      (forall q, q ∈ positional_args (tl ["cram"; "--verbose"; "/src/test1.t"]) ->
         fs s !! q = fs ex_state !! q) /\
      (forall k, k <> td ->
         (forall q, q ∈ positional_args (tl ["cram"; "--verbose"; "/src/test1.t"]) ->
            k <> staged_path td q) ->
         fs s !! k = fs ex_state !! k).
Proof.
  destruct (main_call positional_args ["cram"; "--verbose"; "/src/test1.t"] ex_state)
    as [[a s]|e s] eqn:E; [|vm_compute in E; discriminate].
  exists a, s. split; [reflexivity|].
  exact (main_call_frame positional_args _ _ _ _ E).
Defined.

Lemma main_call_staged_in_td_witness :
  exists a s,
    main_call positional_args ["cram"; "--verbose"; "/src/test1.t"] ex_state
      = Done (a, s) /\
    exists td, fs ex_state !! td = None /\ fs s !! td = Some Dir /\
      forall q, q ∈ positional_args (tl ["cram"; "--verbose"; "/src/test1.t"]) ->
        basename q <> "" /\
        staged_path td q = (td ++ String "/" (basename q))%string /\
        dirname (staged_path td q) = td.
Proof.
  destruct (main_call positional_args ["cram"; "--verbose"; "/src/test1.t"] ex_state)
    as [[a s]|e s] eqn:E; [|vm_compute in E; discriminate].
  exists a, s. split; [reflexivity|].
  apply (main_call_staged_in_td positional_args _ _ _ _ E).
  intros n Hn. change (n ∈ ["XXXX"; "YYYY"]) in Hn.
  apply elem_of_cons in Hn as [->|Hn]; [reflexivity|].
  apply list_elem_of_singleton in Hn as ->. reflexivity.
Defined.

Lemma main_call_empty_basename_witness :
  exists e s, main_call positional_args ["cram"; "/src/dir/"] ex_state = Raised e s.
Proof.
  destruct (main_call positional_args ["cram"; "/src/dir/"] ex_state) as [r|e s] eqn:E;
    [|exists e, s; reflexivity].
  exfalso. refine (main_call_empty_basename positional_args _ _ "/src/dir/" _ _ r E).
  - change ("/src/dir/" ∈ ["/src/dir/"]). by left.
  - reflexivity.
Defined.

Lemma main_call_no_original_paths_witness :
  exists a s,
    main_call positional_args ["cram"; "--verbose"; "/src/test1.t"] ex_state
      = Done (a, s) /\
    forall x, x ∈ a -> x ∉ positional_args (tl ["cram"; "--verbose"; "/src/test1.t"]).
Proof.
  destruct (main_call positional_args ["cram"; "--verbose"; "/src/test1.t"] ex_state)
    as [[a s]|e s] eqn:E; [|vm_compute in E; discriminate].
  exists a, s. split; [reflexivity|].
  exact (main_call_no_original_paths positional_args _ _ _ _ E).
Defined.


Lemma mkdtemp_first_free_witness :
  mkdtemp "/tmp/root" ex_state_busy =
    Done (join "/tmp/root" ("tmp" ++ "YYYY"),
          set_fs (<[join "/tmp/root" ("tmp" ++ "YYYY") := Dir]> (fs ex_state_busy))
                 (set_tmp_names [] ex_state_busy)).
Proof.
  apply (mkdtemp_first_free "/tmp/root" ex_state_busy ["XXXX"] "YYYY" []).
  - reflexivity.
  - unfold TMP_MAX. simpl. lia.
  - intros n Hn. apply list_elem_of_singleton in Hn as ->.
    exists Dir. vm_compute. reflexivity.
  - vm_compute. reflexivity.
  - vm_compute. reflexivity.
Defined.

Lemma mkdtemp_location_witness :
  exists td st1, mkdtemp "/tmp/root" ex_state = Done (td, st1) /\
    exists name, name ∈ tmp_names ex_state /\ dirname td = "/tmp/root" /\
      basename td = ("tmp" ++ name)%string /\
      fs ex_state !! td = None /\ fs st1 !! td = Some Dir.
Proof.
  destruct (mkdtemp "/tmp/root" ex_state) as [[td st1]|e s] eqn:E;
    [|vm_compute in E; discriminate].
  exists td, st1. split; [reflexivity|].
  apply (mkdtemp_location "/tmp/root" ex_state td st1 E); [discriminate|reflexivity|].
  intros n Hn. change (n ∈ ["XXXX"; "YYYY"]) in Hn.
  apply elem_of_cons in Hn as [->|Hn]; [reflexivity|].
  apply list_elem_of_singleton in Hn as ->. reflexivity.
Defined.
